(** * Linker-is-compiler mixins (mesonbuild/compilers/mixins/islinker.py)

    A shallow embedding of the two mixin classes [LinkerEnvVarsMixin] and
    [BasicLinkerIsCompilerMixin], together with the fragment of the Python
    runtime they run on: exceptions, list objects living in a store,
    [os.environ], [str.format] and the POSIX mode of [shlex.split]. *)

From Stdlib Require Import Ascii String.
From stdpp Require Import gmap strings list.

(** ** Characters used by the lexer

    Written by character code, so that no literal has to spell a quote. *)

Definition ch_tab : ascii := "009"%char.
Definition ch_lf : ascii := "010"%char.
Definition ch_cr : ascii := "013"%char.
Definition ch_space : ascii := "032"%char.
Definition ch_dquote : ascii := "034"%char.
Definition ch_squote : ascii := "039"%char.
Definition ch_backslash : ascii := "092"%char.
Definition ch_a : ascii := "097"%char.

(** ** Python runtime fragment *)

Module Py.

(** Exceptions the code under study can raise.  [ValueError] is the
    built-in raised by [shlex], [IndexError] the one of list indexing;
    the other two are the classes of [mesonlib] used by the mixin. *)
Inductive Exn :=
| ValueError (msg : string)
| IndexError (msg : string)
| MesonException (msg : string)
| EnvironmentException (msg : string).

Definition exn_msg (e : Exn) : string :=
  match e with
  | ValueError m | IndexError m | MesonException m
  | EnvironmentException m => m
  end.

(** Whether [e] is of one of the two classes of [mesonlib], the ones the
    capability queries raise. *)
Definition is_capability_error (e : Exn) : bool :=
  match e with
  | MesonException _ | EnvironmentException _ => true
  | ValueError _ | IndexError _ => false
  end.

(** Whether [e] is one of Python's built-in exceptions, which no class
    of this code defines. *)
Definition is_builtin_error (e : Exn) : bool :=
  match e with
  | ValueError _ | IndexError _ => true
  | MesonException _ | EnvironmentException _ => false
  end.

(** The whitespace characters of C's [isspace], all of them whitespace to
    [str.isspace] too: space, tab, line feed, vertical tab, form feed,
    carriage return. *)
Definition isspace (c : ascii) : bool :=
  let n := nat_of_ascii c in
  Nat.eqb n 32 || (Nat.leb 9 n && Nat.leb n 13).

(** Outcome of running a piece of code: it returns, it raises, it never
    comes back ([Hang]: a loop that keeps iterating), or it follows a
    reference behind which the store holds no object ([Fault]; a store
    built by a Python run has none). *)
Inductive Outcome (A : Type) :=
| Return (a : A)
| Raise (e : Exn)
| Hang
| Fault.
Global Arguments Return {A} a.
Global Arguments Raise {A} e.
Global Arguments Hang {A}.
Global Arguments Fault {A}.

(** [c in s] for a one-character string [c]. *)
Fixpoint in_str (c : ascii) (s : string) : bool :=
  match s with
  | EmptyString => false
  | String d s' => Ascii.eqb c d || in_str c s'
  end.

(** Truthiness of a [str]: only the empty string is false. *)
Definition str_truthy (s : string) : bool :=
  match s with
  | EmptyString => false
  | String _ _ => true
  end.

(** [tmpl.format(arg)] for a template holding one automatic field [{}]
    and no brace escapes, which is how the mixin uses it: the field is
    replaced by [arg], the text around it is kept. *)
Fixpoint format (tmpl arg : string) : string :=
  match tmpl with
  | EmptyString => EmptyString
  | String c rest =>
      match rest with
      | String d rest' =>
          if Ascii.eqb c "{" && Ascii.eqb d "}" then arg +:+ rest'
          else String c (format rest arg)
      | EmptyString => String c EmptyString
      end
  end.

End Py.

Import Py.

(** ** [shlex] in the configuration installed by [shlex.split]

    [split(s)] builds [shlex(s, posix=True)], sets [whitespace_split] and
    empties [commenters]; [punctuation_chars] is empty.  Under these
    settings the comment branches, the punctuation state ['c'] and the
    push-back of a punctuation character are never entered, and they are
    left out below.  Every other branch of [read_token] is kept in the
    order of the library's source. *)

Module shlex.

Definition wordchars : string :=
  "abcdfeghijklmnopqrstuvwxyzABCDEFGHIJKLMNOPQRSTUVWXYZ0123456789_".
Definition whitespace : string :=
  String ch_space (String ch_tab (String ch_cr (String ch_lf EmptyString))).
Definition quotes : string :=
  String ch_squote (String ch_dquote EmptyString).
Definition escape : string := String ch_backslash EmptyString.
Definition escapedquotes : string := String ch_dquote EmptyString.

(** What one turn of the [while True] loop of [read_token] decides. *)
Inductive Ctl := Break | Continue.

(** The variables the loop works on: the fields [state] and [token] of
    the lexer, and the locals [quoted] and [escapedstate]. *)
Record Vars := mkVars {
  state : option ascii;
  token : string;
  quoted : bool;
  escapedstate : ascii
}.

(** [if self.token or (self.posix and quoted): break else: continue] *)
Definition emit (v : Vars) : Ctl :=
  if str_truthy (token v) || quoted v then Break else Continue.

Definition push (tok : string) (c : ascii) : string :=
  tok +:+ String c EmptyString.

(** One turn of the loop on [nextchar], which is [None] once the input
    is exhausted ([instream.read(1)] giving the empty string). *)
Definition iteration (v : Vars) (nextchar : option ascii)
  : Exn + (Ctl * Vars) :=
  match state v with
  | None =>
      (* past end of file *)
      inr (Break, mkVars None EmptyString (quoted v) (escapedstate v))
  | Some s =>
      if Ascii.eqb s ch_space then
        match nextchar with
        | None =>
            inr (Break, mkVars None (token v) (quoted v) (escapedstate v))
        | Some c =>
            if in_str c whitespace then inr (emit v, v)
            else if in_str c escape then
              inr (Continue, mkVars (Some c) (token v) (quoted v) ch_a)
            else if in_str c wordchars then
              inr (Continue,
                   mkVars (Some ch_a) (String c EmptyString)
                          (quoted v) (escapedstate v))
            else if in_str c quotes then
              inr (Continue,
                   mkVars (Some c) (token v) (quoted v) (escapedstate v))
            else
              (* whitespace_split *)
              inr (Continue,
                   mkVars (Some ch_a) (String c EmptyString)
                          (quoted v) (escapedstate v))
        end
      else if in_str s quotes then
        (* quoted = True *)
        match nextchar with
        | None => inl (ValueError "No closing quotation")
        | Some c =>
            if Ascii.eqb c s then
              inr (Continue,
                   mkVars (Some ch_a) (token v) true (escapedstate v))
            else if in_str c escape && in_str s escapedquotes then
              inr (Continue, mkVars (Some c) (token v) true s)
            else
              inr (Continue,
                   mkVars (Some s) (push (token v) c) true (escapedstate v))
        end
      else if in_str s escape then
        match nextchar with
        | None => inl (ValueError "No escaped character")
        | Some c =>
            let tok :=
              if in_str (escapedstate v) quotes
                 && negb (Ascii.eqb c s)
                 && negb (Ascii.eqb c (escapedstate v))
              then push (token v) s else token v in
            inr (Continue,
                 mkVars (Some (escapedstate v)) (push tok c)
                        (quoted v) (escapedstate v))
        end
      else if Ascii.eqb s ch_a then
        match nextchar with
        | None =>
            inr (Break, mkVars None (token v) (quoted v) (escapedstate v))
        | Some c =>
            if in_str c whitespace then
              let v' := mkVars (Some ch_space) (token v)
                               (quoted v) (escapedstate v) in
              inr (emit v', v')
            else if in_str c quotes then
              inr (Continue,
                   mkVars (Some c) (token v) (quoted v) (escapedstate v))
            else if in_str c escape then
              inr (Continue, mkVars (Some c) (token v) (quoted v) ch_a)
            else
              inr (Continue,
                   mkVars (Some s) (push (token v) c)
                          (quoted v) (escapedstate v))
        end
      else
        (* no branch of the loop body applies *)
        inr (Continue, v)
  end.

(** The [while True] loop over the characters still in [instream].  A
    turn that asks to continue once the input is exhausted would read
    the empty string for ever: [Hang]. *)
Fixpoint loop (instream : string) (v : Vars) : Outcome (Vars * string) :=
  match instream with
  | EmptyString =>
      match iteration v None with
      | inl e => Raise e
      | inr (Break, v') => Return (v', EmptyString)
      | inr (Continue, _) => Hang
      end
  | String c rest =>
      match iteration v (Some c) with
      | inl e => Raise e
      | inr (Break, v') => Return (v', rest)
      | inr (Continue, v') => loop rest v'
      end
  end.

(** The lexer object: the fields that [read_token] reads and writes. *)
Record Lexer := mkLexer {
  instream : string;
  lex_state : option ascii;
  lex_token : string
}.

(** [shlex(s, posix=True)] *)
Definition init (s : string) : Lexer := mkLexer s (Some ch_space) EmptyString.

(** [read_token]: the result is [None] for end of input. *)
Definition read_token (lx : Lexer) : Outcome (option string * Lexer) :=
  match loop (instream lx)
             (mkVars (lex_state lx) (lex_token lx) false ch_space) with
  | Raise e => Raise e
  | Hang => Hang
  | Fault => Fault
  | Return (v, rest) =>
      let result := token v in
      let lx' := mkLexer rest (state v) EmptyString in
      if negb (quoted v) && negb (str_truthy result)
      then Return (None, lx')
      else Return (Some result, lx')
  end.

(** [list(lex)]: [__next__] until it meets [eof].  [fuel] bounds the
    number of tokens asked for. *)
Fixpoint tokens (fuel : nat) (lx : Lexer) : Outcome (list string) :=
  match fuel with
  | O => Hang
  | S fuel' =>
      match read_token lx with
      | Raise e => Raise e
      | Hang => Hang
      | Fault => Fault
      | Return (None, _) => Return []
      | Return (Some tok, lx') =>
          match tokens fuel' lx' with
          | Return l => Return (tok :: l)
          | other => other
          end
      end
  end.

(** [shlex.split(s)].  No call of [read_token] that yields a token
    leaves the input as long as it found it, so [2 + len(s)] calls are
    enough ([split_returns_or_raises] below). *)
Definition split (s : string) : Outcome (list string) :=
  tokens (2 + String.length s) (init s).

End shlex.


(** ** The process the mixins run in *)

(** Identity of a list object in the store. *)
Definition loc := positive.

(** Modelled from the spec: the host platform that [mesonlib.is_windows]
    probes.  [mesonlib] is not part of the sources at hand; the spec says
    the probe answers for the build host, and singles out one platform as
    the one that supports linker response files. *)
Inductive Platform :=
| Windows
| OtherPlatform (system : string).

(** What a method can observe and change: the environment variables, the
    host platform, and the list objects, each behind its reference. *)
Record World := mkWorld {
  environ : gmap string string;
  host_platform : Platform;
  heap : gmap loc (list string)
}.

Definition set_heap (h : gmap loc (list string)) (w : World) : World :=
  mkWorld (environ w) (host_platform w) h.

(** Python values the methods hand back. *)
Inductive Value :=
| VNone
| VBool (b : bool)
| VStr (s : string)
| VTuple (a b : Value)
| VList (r : loc).

(** Computations: a world in, an outcome and a world out.  An exception
    keeps the world reached when it was raised. *)
Definition M (A : Type) : Type := World → Outcome A * World.

Definition ret {A} (a : A) : M A := λ w, (Return a, w).

Definition bind {A B} (m : M A) (k : A → M B) : M B :=
  λ w, match m w with
       | (Return a, w') => k a w'
       | (Raise e, w') => (Raise e, w')
       | (Hang, w') => (Hang, w')
       | (Fault, w') => (Fault, w')
       end.

Global Instance M_ret : MRet M := @ret.
Global Instance M_bind : MBind M := λ A B k m, bind m k.

Definition raise {A} (e : Exn) : M A := λ w, (Raise e, w).

(** A pure library call, with its own outcome. *)
Definition lift {A} (o : Outcome A) : M A := λ w, (o, w).

(** A list display or any call that builds a list: a new object. *)
Definition new_list (l : list string) : M Value :=
  λ w, let r := fresh (dom (heap w)) in
       (Return (VList r), set_heap (<[r := l]> (heap w)) w).

Definition read_list (r : loc) : M (list string) :=
  λ w, match heap w !! r with
       | Some l => (Return l, w)
       | None => (Fault, w)
       end.

(** [lst.copy()] *)
Definition list_copy (r : loc) : M Value :=
  l ← read_list r; new_list l.

(** [os.environ.get(name)] *)
Definition os_environ_get (name : string) : M (option string) :=
  λ w, (Return (environ w !! name), w).

(** Modelled from the spec: [mesonlib.is_windows], true exactly on the
    host platform designated to support linker response files. *)
Definition is_windows : M Value :=
  λ w, (Return (VBool match host_platform w with
                      | Windows => true
                      | OtherPlatform _ => false
                      end), w).

(** In-place updates a caller can apply to a list it holds. *)
Inductive Mutation :=
| Append (x : string)
| Extend (xs : list string)
| SetItem (i : nat) (x : string)
| Clear.

Definition write_list (r : loc) (l : list string) : M Value :=
  λ w, (Return VNone, set_heap (<[r := l]> (heap w)) w).

Definition mutate (r : loc) (m : Mutation) : M Value :=
  l ← read_list r;
  match m with
  | Append x => write_list r (l ++ [x])
  | Extend xs => write_list r (l ++ xs)
  | SetItem i x =>
      if decide (i < length l) then write_list r (<[i := x]> l)
      else raise (IndexError "list assignment index out of range")
  | Clear => write_list r []
  end.

Fixpoint mutate_all (r : loc) (ms : list Mutation) : M Value :=
  match ms with
  | [] => ret VNone
  | m :: ms' => _ ← mutate r m; mutate_all r ms'
  end.

(** Modelled from the spec: [mesonlib.MachineChoice], which enumerates the
    build machine and the host machine. *)
Inductive MachineChoice := BUILD | HOST.

(** The object a mixin method receives as [self]: the attributes the
    methods read.  Both are set by the compiler class the mixin is mixed
    into; [exelist] refers to a list object. *)
Record Self := mkSelf {
  id : string;
  exelist : loc
}.

(** ** The mixins *)

Module LinkerEnvVarsMixin.

Definition get_linker_args_from_envvars (self : Self) : M Value :=
  flags ← os_environ_get "LDFLAGS";
  match flags with
  | None => new_list []
  | Some s =>
      if negb (str_truthy s) then new_list []
      else l ← lift (shlex.split s); new_list l
  end.

End LinkerEnvVarsMixin.

Section BasicLinkerIsCompilerMixin.

(** [coredata.OptionDictType] and [environment.Environment] are only
    named in annotations; the methods never look inside them. *)
Variables OptionDictType Environment : Type.

(** How a call made through [self] is resolved: the one method the
    mixin calls on [self], which a class built on the mixin may
    override. *)
Record Dispatch := mkDispatch {
  self_get_std_shared_lib_link_args : Self → M Value
}.

Definition sanitizer_link_args (self : Self) (value : string) : M Value :=
  new_list [].

Definition get_lto_link_args (self : Self) : M Value :=
  new_list [].

Definition can_linker_accept_rsp (self : Self) : M Value :=
  is_windows.

Definition get_linker_exelist (self : Self) : M Value :=
  list_copy (exelist self).

Definition get_linker_output_args (self : Self) (output : string)
  : M Value :=
  new_list [].

Definition get_linker_always_args (self : Self) : M Value :=
  new_list [].

Definition get_linker_lib_prefix (self : Self) : M Value :=
  ret (VStr "").

Definition get_option_link_args (self : Self) (options : OptionDictType)
  : M Value :=
  new_list [].

Definition has_multi_link_args (self : Self) (args : loc) (env : Environment)
  : M Value :=
  ret (VTuple (VBool false) (VBool false)).

Definition get_link_debugfile_args (self : Self) (targetfile : string)
  : M Value :=
  new_list [].

Definition get_std_shared_lib_link_args (self : Self) : M Value :=
  new_list [].

Definition get_std_shared_module_args (cls : Dispatch) (self : Self)
  (options : OptionDictType) : M Value :=
  self_get_std_shared_lib_link_args cls self.

Definition get_link_whole_for (self : Self) (args : loc) : M Value :=
  raise (EnvironmentException
           (format "Linker {} does not support link_whole" (id self))).

Definition get_allow_undefined_args (self : Self) : M Value :=
  raise (EnvironmentException
           (format "Linker {} does not support allow undefined" (id self))).

Definition get_pie_link_args (self : Self) : M Value :=
  let m := "Linker {} does not support position-independent executable" in
  raise (EnvironmentException (format m (id self))).

Definition get_undefined_link_args (self : Self) : M Value :=
  new_list [].

Definition get_coverage_link_args (self : Self) : M Value :=
  let m := format "Linker {} doesn't implement coverage data generation."
                  (id self) in
  raise (EnvironmentException m).

Definition no_undefined_link_args (self : Self) : M Value :=
  new_list [].

Definition bitcode_args (self : Self) : M Value :=
  raise (MesonException "This linker doesn't support bitcode bundles").

Definition get_soname_args (self : Self) (for_machine : MachineChoice)
  (prefix shlib_name suffix soversion : string)
  (darwin_versions : string * string) (is_shared_module : bool) : M Value :=
  raise (MesonException "This linker doesn't support soname args").

Definition build_rpath_args (self : Self) (env : Environment)
  (build_dir from_dir rpath_paths build_rpath install_rpath : string)
  : M Value :=
  new_list [].

(** The class as it stands, nothing overridden. *)
Definition baseline : Dispatch :=
  mkDispatch get_std_shared_lib_link_args.

(** A class that takes everything from the mixin but its own
    [get_std_shared_lib_link_args]. *)
Definition override_std_shared_lib_link_args (f : Self → M Value)
  : Dispatch :=
  mkDispatch f.

(** *** The query surface

    One constructor per method, holding the arguments of the call. *)
Inductive Query :=
| Q_get_linker_args_from_envvars
| Q_sanitizer_link_args (value : string)
| Q_get_lto_link_args
| Q_can_linker_accept_rsp
| Q_get_linker_exelist
| Q_get_linker_output_args (output : string)
| Q_get_linker_always_args
| Q_get_linker_lib_prefix
| Q_get_option_link_args (options : OptionDictType)
| Q_has_multi_link_args (args : loc) (env : Environment)
| Q_get_link_debugfile_args (targetfile : string)
| Q_get_std_shared_lib_link_args
| Q_get_std_shared_module_args (options : OptionDictType)
| Q_get_link_whole_for (args : loc)
| Q_get_allow_undefined_args
| Q_get_pie_link_args
| Q_get_undefined_link_args
| Q_get_coverage_link_args
| Q_no_undefined_link_args
| Q_bitcode_args
| Q_get_soname_args (for_machine : MachineChoice)
    (prefix shlib_name suffix soversion : string)
    (darwin_versions : string * string) (is_shared_module : bool)
| Q_build_rpath_args (env : Environment)
    (build_dir from_dir rpath_paths build_rpath install_rpath : string).

(** The call [q] stands for, on an object of the class [cls]. *)
Definition call_on (cls : Dispatch) (q : Query) (self : Self) : M Value :=
  match q with
  | Q_get_linker_args_from_envvars =>
      LinkerEnvVarsMixin.get_linker_args_from_envvars self
  | Q_sanitizer_link_args value => sanitizer_link_args self value
  | Q_get_lto_link_args => get_lto_link_args self
  | Q_can_linker_accept_rsp => can_linker_accept_rsp self
  | Q_get_linker_exelist => get_linker_exelist self
  | Q_get_linker_output_args output => get_linker_output_args self output
  | Q_get_linker_always_args => get_linker_always_args self
  | Q_get_linker_lib_prefix => get_linker_lib_prefix self
  | Q_get_option_link_args options => get_option_link_args self options
  | Q_has_multi_link_args args env => has_multi_link_args self args env
  | Q_get_link_debugfile_args targetfile =>
      get_link_debugfile_args self targetfile
  | Q_get_std_shared_lib_link_args =>
      self_get_std_shared_lib_link_args cls self
  | Q_get_std_shared_module_args options =>
      get_std_shared_module_args cls self options
  | Q_get_link_whole_for args => get_link_whole_for self args
  | Q_get_allow_undefined_args => get_allow_undefined_args self
  | Q_get_pie_link_args => get_pie_link_args self
  | Q_get_undefined_link_args => get_undefined_link_args self
  | Q_get_coverage_link_args => get_coverage_link_args self
  | Q_no_undefined_link_args => no_undefined_link_args self
  | Q_bitcode_args => bitcode_args self
  | Q_get_soname_args for_machine prefix shlib_name suffix soversion
                      darwin_versions is_shared_module =>
      get_soname_args self for_machine prefix shlib_name suffix soversion
                      darwin_versions is_shared_module
  | Q_build_rpath_args env build_dir from_dir rpath_paths build_rpath
                       install_rpath =>
      build_rpath_args self env build_dir from_dir rpath_paths build_rpath
                       install_rpath
  end.

(** The call on the unmodified baseline table. *)
Definition call : Query → Self → M Value := call_on baseline.

(** The queries the spec files under "hard failure by default". *)
Definition hard_failure (q : Query) : bool :=
  match q with
  | Q_get_link_whole_for _ | Q_get_allow_undefined_args
  | Q_get_pie_link_args | Q_get_coverage_link_args
  | Q_bitcode_args | Q_get_soname_args _ _ _ _ _ _ _ => true
  | _ => false
  end.

(** Those of them whose message is built from [self.id]. *)
Definition names_toolchain (q : Query) : bool :=
  match q with
  | Q_get_link_whole_for _ | Q_get_allow_undefined_args
  | Q_get_pie_link_args | Q_get_coverage_link_args => true
  | _ => false
  end.

(** The words by which the message of a hard failure names its
    feature. *)
Definition feature_words (q : Query) : string :=
  match q with
  | Q_get_link_whole_for _ => "link_whole"
  | Q_get_allow_undefined_args => "allow undefined"
  | Q_get_pie_link_args => "position-independent executable"
  | Q_get_coverage_link_args => "coverage data generation"
  | Q_bitcode_args => "bitcode bundles"
  | Q_get_soname_args _ _ _ _ _ _ _ => "soname args"
  | _ => ""
  end.

(** The queries the spec files under "inert default". *)
Definition inert_default (q : Query) : bool :=
  match q with
  | Q_sanitizer_link_args _ | Q_get_lto_link_args
  | Q_get_linker_output_args _ | Q_get_linker_always_args
  | Q_get_option_link_args _ | Q_get_link_debugfile_args _
  | Q_get_std_shared_lib_link_args | Q_get_std_shared_module_args _
  | Q_get_undefined_link_args | Q_no_undefined_link_args
  | Q_build_rpath_args _ _ _ _ _ _ => true
  | _ => false
  end.

End BasicLinkerIsCompilerMixin.

Arguments Q_get_linker_args_from_envvars {OptionDictType Environment}.
Arguments Q_sanitizer_link_args {OptionDictType Environment} value.
Arguments Q_get_lto_link_args {OptionDictType Environment}.
Arguments Q_can_linker_accept_rsp {OptionDictType Environment}.
Arguments Q_get_linker_exelist {OptionDictType Environment}.
Arguments Q_get_linker_output_args {OptionDictType Environment} output.
Arguments Q_get_linker_always_args {OptionDictType Environment}.
Arguments Q_get_linker_lib_prefix {OptionDictType Environment}.
Arguments Q_get_option_link_args {OptionDictType Environment} options.
Arguments Q_has_multi_link_args {OptionDictType Environment} args env.
Arguments Q_get_link_debugfile_args {OptionDictType Environment} targetfile.
Arguments Q_get_std_shared_lib_link_args {OptionDictType Environment}.
Arguments Q_get_std_shared_module_args {OptionDictType Environment} options.
Arguments Q_get_link_whole_for {OptionDictType Environment} args.
Arguments Q_get_allow_undefined_args {OptionDictType Environment}.
Arguments Q_get_pie_link_args {OptionDictType Environment}.
Arguments Q_get_undefined_link_args {OptionDictType Environment}.
Arguments Q_get_coverage_link_args {OptionDictType Environment}.
Arguments Q_no_undefined_link_args {OptionDictType Environment}.
Arguments Q_bitcode_args {OptionDictType Environment}.
Arguments Q_get_soname_args {OptionDictType Environment}.
Arguments Q_build_rpath_args {OptionDictType Environment}.
Arguments call_on {OptionDictType Environment} cls q self.
Arguments call {OptionDictType Environment} q self.
Arguments hard_failure {OptionDictType Environment} q.
Arguments names_toolchain {OptionDictType Environment} q.
Arguments feature_words {OptionDictType Environment} q.
Arguments inert_default {OptionDictType Environment} q.
Arguments get_option_link_args {OptionDictType} self options.
Arguments has_multi_link_args {Environment} self args env.
Arguments get_std_shared_module_args {OptionDictType} cls self options.
Arguments build_rpath_args {Environment} self env build_dir from_dir
  rpath_paths build_rpath install_rpath.

Create HintDb queries.
#[global] Hint Unfold
  sanitizer_link_args get_lto_link_args get_linker_output_args
  get_linker_always_args get_option_link_args get_link_debugfile_args
  get_std_shared_lib_link_args get_std_shared_module_args
  get_undefined_link_args no_undefined_link_args build_rpath_args
  baseline self_get_std_shared_lib_link_args : queries.

(** ** Observing results

    Two calls hand back different list objects; what a caller can compare
    is what the lists hold, as [==] does. *)

Inductive Observed :=
| ONone
| OBool (b : bool)
| OStr (s : string)
| OTuple (a b : Observed)
| OList (l : list string).

Fixpoint observe (h : gmap loc (list string)) (v : Value) : option Observed :=
  match v with
  | VNone => Some ONone
  | VBool b => Some (OBool b)
  | VStr s => Some (OStr s)
  | VTuple a b =>
      match observe h a, observe h b with
      | Some a', Some b' => Some (OTuple a' b')
      | _, _ => None
      end
  | VList r => OList <$> h !! r
  end.

Definition observe_outcome (r : Outcome Value * World)
  : Outcome (option Observed) :=
  match r with
  | (Return v, w) => Return (observe (heap w) v)
  | (Raise e, _) => Raise e
  | (Hang, _) => Hang
  | (Fault, _) => Fault
  end.

(** ** Quoting, as the shell defines it

    The quoting state of a POSIX shell word scanner, character by
    character: a backslash outside quotes or inside double quotes takes
    the next character, single quotes run to the next single quote, double
    quotes to the next double quote that no backslash takes. *)

Module PosixQuoting.

Inductive Quoting :=
| Plain
| InSingle
| InDouble
| EscPlain
| EscDouble.

Definition advance (q : Quoting) (c : ascii) : Quoting :=
  match q with
  | Plain =>
      if Ascii.eqb c ch_squote then InSingle
      else if Ascii.eqb c ch_dquote then InDouble
      else if Ascii.eqb c ch_backslash then EscPlain
      else Plain
  | InSingle => if Ascii.eqb c ch_squote then Plain else InSingle
  | InDouble =>
      if Ascii.eqb c ch_dquote then Plain
      else if Ascii.eqb c ch_backslash then EscDouble
      else InDouble
  | EscPlain => Plain
  | EscDouble => InDouble
  end.

Fixpoint scan (q : Quoting) (s : string) : Quoting :=
  match s with
  | EmptyString => q
  | String c s' => scan (advance q c) s'
  end.

(** Where the end of the string leaves the scanner. *)
Inductive Verdict :=
| WellFormed
| UnclosedQuote
| DanglingEscape.

Definition verdict (s : string) : Verdict :=
  match scan Plain s with
  | Plain => WellFormed
  | InSingle | InDouble => UnclosedQuote
  | EscPlain | EscDouble => DanglingEscape
  end.

End PosixQuoting.

(** A string of nothing but the lexer's whitespace (space, tab, carriage
    return, line feed); the empty string is one. *)
Fixpoint blank (s : string) : bool :=
  match s with
  | EmptyString => true
  | String c s' => in_str c shlex.whitespace && blank s'
  end.

(** [needle in hay] for strings. *)
Definition contains (hay needle : string) : Prop :=
  ∃ pre post, hay = pre +:+ needle +:+ post.

Fixpoint starts_with (s p : string) {struct p} : bool :=
  match p, s with
  | EmptyString, _ => true
  | String c p', String d s' => Ascii.eqb c d && starts_with s' p'
  | String _ _, EmptyString => false
  end.

Fixpoint containsb (hay needle : string) : bool :=
  starts_with hay needle ||
  match hay with
  | EmptyString => false
  | String _ hay' => containsb hay' needle
  end.

(** The flag string of the spec's example: [-L/opt/lib], a space, and
    [-Wl,-rpath,/opt/lib] between double quotes. *)
Definition ldflags_example : string :=
  "-L/opt/lib " +:+
  String ch_dquote ("-Wl,-rpath,/opt/lib" +:+ String ch_dquote EmptyString).

(** ** The lexer against the quoting state

    The relations the proofs about [shlex] are stated with. *)

Section lexer_relations.
Import shlex PosixQuoting.

(** The characters the lexer tells apart. *)
Inductive CharClass (c : ascii) : Prop :=
| IsSpace : c = ch_space → CharClass c
| IsTab : c = ch_tab → CharClass c
| IsCr : c = ch_cr → CharClass c
| IsLf : c = ch_lf → CharClass c
| IsSquote : c = ch_squote → CharClass c
| IsDquote : c = ch_dquote → CharClass c
| IsBackslash : c = ch_backslash → CharClass c
| IsOrdinary :
    in_str c whitespace = false →
    Ascii.eqb c ch_squote = false →
    Ascii.eqb c ch_dquote = false →
    Ascii.eqb c ch_backslash = false →
    CharClass c.

(** How the variables of the loop stand for a quoting state. *)
Inductive stands_for : Vars → Quoting → Prop :=
| sf_space tok q e : stands_for (mkVars (Some ch_space) tok q e) Plain
| sf_word tok q e : stands_for (mkVars (Some ch_a) tok q e) Plain
| sf_single tok q e : stands_for (mkVars (Some ch_squote) tok q e) InSingle
| sf_double tok q e : stands_for (mkVars (Some ch_dquote) tok q e) InDouble
| sf_esc_plain tok q :
    stands_for (mkVars (Some ch_backslash) tok q ch_a) EscPlain
| sf_esc_double tok q :
    stands_for (mkVars (Some ch_backslash) tok q ch_dquote) EscDouble.

(** What the loop may end in, against the quoting state at the end of
    the input. *)
Definition loop_agrees (input : string) (q : Quoting)
  (o : Outcome (Vars * string)) : Prop :=
  match o with
  | Return (v', rest) =>
      (state v' = None ∧ rest = EmptyString ∧ scan q input = Plain)
      ∨ (state v' = Some ch_space
         ∧ str_truthy (token v') || quoted v' = true
         ∧ String.length rest < String.length input
         ∧ scan q input = scan Plain rest)
  | Raise e =>
      (e = ValueError "No closing quotation"
       ∧ (scan q input = InSingle ∨ scan q input = InDouble))
      ∨ (e = ValueError "No escaped character"
         ∧ (scan q input = EscPlain ∨ scan q input = EscDouble))
  | Hang | Fault => False
  end.

Definition split_agrees (s : string) (o : Outcome (list string)) : Prop :=
  match o with
  | Return _ => scan Plain s = Plain
  | Raise e =>
      (e = ValueError "No closing quotation"
       ∧ (scan Plain s = InSingle ∨ scan Plain s = InDouble))
      ∨ (e = ValueError "No escaped character"
         ∧ (scan Plain s = EscPlain ∨ scan Plain s = EscDouble))
  | Hang | Fault => False
  end.

End lexer_relations.

(** What a call leaves alone: the environment, the platform, and every
    list object that was there before it. *)
Definition preserves (w w' : World) : Prop :=
  environ w' = environ w
  ∧ host_platform w' = host_platform w
  ∧ heap w ⊆ heap w'.

(** ** Sample inputs *)

(** A D compiler, the kind of toolchain the mixin is written for, with
    its invocation list behind reference 1. *)
Definition dmd : Self := mkSelf "dmd" 1%positive.

(** A Linux host with the given value of [LDFLAGS]. *)
Definition linux_world (ldflags : option string) : World :=
  mkWorld match ldflags with
          | Some flags => {["LDFLAGS" := flags]}
          | None => ∅
          end
          (OtherPlatform "Linux")
          {[1%positive := ["dmd"]]}.

(** [-L/opt/lib] after a double quote that is never closed. *)
Definition ldflags_unclosed : string := String ch_dquote "-L/opt/lib".

(** A space and a tab. *)
Definition ldflags_blank : string :=
  String ch_space (String ch_tab EmptyString).

(** ** Flag strings by shape *)

(** A character that is part of a word wherever it stands: no
    whitespace, no quote, no backslash. *)
Definition plain_char (c : ascii) : bool :=
  negb (in_str c shlex.whitespace
        || in_str c shlex.quotes
        || in_str c shlex.escape).

Fixpoint plain (s : string) : bool :=
  match s with
  | EmptyString => true
  | String c s' => plain_char c && plain s'
  end.

(** Words written one after the other, each followed by the whitespace
    that ends it. *)
Fixpoint unwords (ws : list (string * string)) : string :=
  match ws with
  | [] => EmptyString
  | (word, sep) :: rest => word +:+ sep +:+ unwords rest
  end.

(** Every word is not empty and plain, every separator is blank, and only
    the last separator may be empty. *)
Fixpoint spaced (ws : list (string * string)) : bool :=
  match ws with
  | [] => true
  | (word, sep) :: rest =>
      str_truthy word && plain word && blank sep
      && (str_truthy sep || match rest with [] => true | _ => false end)
      && spaced rest
  end.

(** [s] between two quote characters [qc]. *)
Definition quoted_with (qc : ascii) (s : string) : string :=
  String qc (s +:+ String qc EmptyString).

(** Nothing in [s] ends or escapes inside quotes opened by [qc]: [s] has
    no [qc], and no backslash when [qc] is the double quote. *)
Fixpoint verbatim (qc : ascii) (s : string) : bool :=
  match s with
  | EmptyString => true
  | String c s' =>
      negb (Ascii.eqb c qc)
      && negb (Ascii.eqb qc ch_dquote && Ascii.eqb c ch_backslash)
      && verbatim qc s'
  end.

(** A string of whitespace only, as [isspace] has it; the empty string
    is one. *)
Fixpoint whitespace_only (s : string) : bool :=
  match s with
  | EmptyString => true
  | String c s' => isspace c && whitespace_only s'
  end.

(** Space, tab, carriage return or line feed, by character code. *)
Definition is_separator (c : ascii) : bool :=
  match nat_of_ascii c with
  | 9 | 10 | 13 | 32 => true
  | _ => false
  end.

(** A string of these four characters only; the empty string is one. *)
Fixpoint separators_only (s : string) : bool :=
  match s with
  | EmptyString => true
  | String c s' => is_separator c && separators_only s'
  end.



(** A form feed and nothing else. *)
Definition ldflags_formfeed : string := String "012"%char EmptyString.

(** *** Words made of quoted and unquoted pieces *)












(** Whether two queries call the same method, whatever the arguments. *)
Definition same_method {OptionDictType Environment : Type}
  (q1 q2 : @Query OptionDictType Environment) : bool :=
  match q1, q2 with
  | Q_get_linker_args_from_envvars, Q_get_linker_args_from_envvars
  | Q_sanitizer_link_args _, Q_sanitizer_link_args _
  | Q_get_lto_link_args, Q_get_lto_link_args
  | Q_can_linker_accept_rsp, Q_can_linker_accept_rsp
  | Q_get_linker_exelist, Q_get_linker_exelist
  | Q_get_linker_output_args _, Q_get_linker_output_args _
  | Q_get_linker_always_args, Q_get_linker_always_args
  | Q_get_linker_lib_prefix, Q_get_linker_lib_prefix
  | Q_get_option_link_args _, Q_get_option_link_args _
  | Q_has_multi_link_args _ _, Q_has_multi_link_args _ _
  | Q_get_link_debugfile_args _, Q_get_link_debugfile_args _
  | Q_get_std_shared_lib_link_args, Q_get_std_shared_lib_link_args
  | Q_get_std_shared_module_args _, Q_get_std_shared_module_args _
  | Q_get_link_whole_for _, Q_get_link_whole_for _
  | Q_get_allow_undefined_args, Q_get_allow_undefined_args
  | Q_get_pie_link_args, Q_get_pie_link_args
  | Q_get_undefined_link_args, Q_get_undefined_link_args
  | Q_get_coverage_link_args, Q_get_coverage_link_args
  | Q_no_undefined_link_args, Q_no_undefined_link_args
  | Q_bitcode_args, Q_bitcode_args
  | Q_get_soname_args _ _ _ _ _ _ _, Q_get_soname_args _ _ _ _ _ _ _
  | Q_build_rpath_args _ _ _ _ _ _, Q_build_rpath_args _ _ _ _ _ _ => true
  | _, _ => false
  end.

(** The two queries that go through [get_std_shared_lib_link_args]. *)
Definition uses_std_shared_lib {OptionDictType Environment : Type}
  (q : @Query OptionDictType Environment) : bool :=
  match q with
  | Q_get_std_shared_lib_link_args | Q_get_std_shared_module_args _ => true
  | _ => false
  end.

(** Three flags, with a tab before the last and a space after it. *)
Definition sample_words : list (string * string) :=
  [("-L/opt/lib", String ch_space EmptyString);
   ("-lm", String ch_space (String ch_tab EmptyString));
   ("-Wl,--as-needed", String ch_space EmptyString)].

(** * Properties *)

(** ** Strings *)

Lemma starts_with_append (n post : string) : starts_with (n +:+ post) n = true.
Proof.
  induction n as [|c n IH]; [done|].
  simpl. by rewrite Ascii.eqb_refl, IH.
Qed.

Lemma contains_containsb (hay needle : string) :
  contains hay needle → containsb hay needle = true.
Proof.
  intros (pre & post & ->).
  induction pre as [|c pre IH]; simpl.
  - destruct (needle +:+ post) eqn:E; simpl;
      rewrite <- E, starts_with_append; done.
  - rewrite IH. apply orb_true_r.
Qed.

(** ** The lexer *)

Section lexer.
Import shlex PosixQuoting.

Lemma char_class (c : ascii) : CharClass c.
Proof.
  destruct c as [[] [] [] [] [] [] [] []];
    first [ by apply IsOrdinary
          | by apply IsSpace | by apply IsTab | by apply IsCr
          | by apply IsLf | by apply IsSquote | by apply IsDquote
          | by apply IsBackslash ].
Qed.

Lemma loop_agrees_tail (c : ascii) (rest : string) (q q' : Quoting) o :
  advance q c = q' → loop_agrees rest q' o → loop_agrees (String c rest) q o.
Proof.
  intros <-. destruct o as [[v' r]|e| |]; simpl; [|tauto..].
  intros [(?&?&?)|(?&?&?&?)]; [left|right]; repeat split; auto; lia.
Qed.

Lemma loop_quoting (input : string) :
  ∀ v q, stands_for v q → loop_agrees input q (loop input v).
Proof.
  induction input as [|c rest IH]; intros v q Hv.
  - destruct Hv; simpl; auto.
  - destruct Hv; destruct (char_class c) as [->| ->| ->| ->| ->| ->| ->|Hw Hs Hd Hb].
    all: try (simpl; unfold emit; simpl).
    all: try (eapply loop_agrees_tail; [done|]; apply IH; constructor).
    all: try (destruct (str_truthy tok || q) eqn:Hemit;
              [right; simpl; repeat split; auto; lia
              |eapply loop_agrees_tail; [done|]; apply IH; constructor]).
    all: simpl in Hw; unfold iteration; simpl; rewrite ?Hw, ?Hs, ?Hd, ?Hb; simpl.
    all: repeat match goal with
                | |- context [if ?b then _ else _] => destruct b
                end.
    all: eapply loop_agrees_tail;
      [simpl; rewrite ?Hs, ?Hd, ?Hb; done|apply IH; constructor].
Qed.

(** Past the end of the input, [read_token] reports the end again. *)
Lemma tokens_past_end (fuel : nat) (input : string) :
  tokens (S fuel) (mkLexer input None EmptyString) = Return [].
Proof. by destruct input. Qed.

Lemma tokens_quoting (fuel : nat) :
  ∀ input, String.length input + 2 ≤ fuel →
           split_agrees input
             (tokens fuel (mkLexer input (Some ch_space) EmptyString)).
Proof.
  induction fuel as [|fuel IH]; intros input Hfuel; [lia|].
  simpl. unfold read_token; simpl.
  pose proof (loop_quoting input _ _
                (sf_space EmptyString false ch_space)) as Hloop.
  destruct (loop input _) as [[[st tok q e] rest]|e| |]; simpl in *;
    [|done..].
  destruct Hloop as [(->&->&Hq)|(->&Htok&Hlen&Hq)].
  - destruct fuel as [|fuel]; [lia|].
    destruct (negb q && negb (str_truthy tok)); [done|].
    by rewrite tokens_past_end.
  - specialize (IH rest ltac:(lia)).
    destruct q, (str_truthy tok); try done; simpl;
      destruct (tokens fuel _); simpl in *; rewrite ?Hq; done.
Qed.

(** [shlex.split] comes back on every string, with the tokens when the
    quoting is closed at the end of the string and with [ValueError]
    when it is not. *)
Lemma split_quoting (s : string) : split_agrees s (split s).
Proof. apply tokens_quoting. simpl. lia. Qed.

Lemma split_returns_or_raises (s : string) :
  (∃ l, split s = Return l) ∨ (∃ msg, split s = Raise (ValueError msg)).
Proof.
  pose proof (split_quoting s) as H.
  destruct (split s) as [l|e| |]; simpl in H; [eauto|..|done|done].
  right. destruct H as [[-> _]|[-> _]]; eauto.
Qed.

Lemma split_well_formed (s : string) :
  verdict s = WellFormed → ∃ l, split s = Return l.
Proof.
  unfold verdict. pose proof (split_quoting s) as H.
  destruct (split s) as [l|e| |]; simpl in H; [eauto|..|done|done].
  destruct H as [[_ [H|H]]|[_ [H|H]]]; rewrite H; done.
Qed.

Lemma split_malformed (s : string) :
  verdict s ≠ WellFormed →
  split s = Raise (ValueError
                     match verdict s with
                     | DanglingEscape => "No escaped character"
                     | _ => "No closing quotation"
                     end).
Proof.
  unfold verdict. pose proof (split_quoting s) as H.
  destruct (split s) as [l|e| |]; simpl in H; [|..|done|done].
  - by rewrite H.
  - destruct H as [[-> [H|H]]|[-> [H|H]]]; rewrite H; done.
Qed.

(** On a blank string the loop runs to the end without a token. *)
Lemma loop_blank (s : string) (e : ascii) :
  blank s = true →
  loop s (mkVars (Some ch_space) EmptyString false e)
  = Return (mkVars None EmptyString false e, EmptyString).
Proof.
  induction s as [|c s IH]; [done|]. simpl.
  intros [Hc Hs]%andb_true_iff. unfold iteration. simpl in *.
  rewrite Hc. simpl. auto.
Qed.

Lemma split_blank (s : string) : blank s = true → split s = Return [].
Proof.
  intros Hs. unfold split, init. simpl. unfold read_token. simpl.
  by rewrite loop_blank.
Qed.

Lemma split_example :
  split ldflags_example = Return ["-L/opt/lib"; "-Wl,-rpath,/opt/lib"].
Proof. vm_compute. reflexivity. Qed.


End lexer.

(** The four separators are what the lexer holds for whitespace. *)
Lemma is_separator_whitespace (c : ascii) :
  is_separator c = in_str c shlex.whitespace.
Proof. by destruct c as [[] [] [] [] [] [] [] []]. Qed.



Lemma separators_only_blank (s : string) : separators_only s = blank s.
Proof.
  induction s as [|c s IH]; [done|].
  simpl. by rewrite IH, is_separator_whitespace.
Qed.

Lemma contains_append_l (p hay needle : string) :
  contains hay needle → contains (p +:+ hay) needle.
Proof.
  intros (pre & post & ->). exists (p +:+ pre), post.
  induction p as [|c p IH]; [done|].
  change (String c (p +:+ pre +:+ needle +:+ post)
          = String c ((p +:+ pre) +:+ needle +:+ post)).
  by rewrite IH.
Qed.

Lemma contains_prefix (needle post : string) : contains (needle +:+ post) needle.
Proof. by exists EmptyString, post. Qed.

(** ** The store *)

Lemma preserves_refl (w : World) : preserves w w.
Proof. by repeat split. Qed.

Lemma new_list_run (l : list string) (w : World) :
  ∃ r, new_list l w = (Return (VList r), set_heap (<[r := l]> (heap w)) w)
       ∧ heap w !! r = None.
Proof.
  exists (fresh (dom (heap w))). split; [done|].
  apply not_elem_of_dom, is_fresh.
Qed.

Lemma new_list_preserves (l : list string) (w : World) :
  preserves w (new_list l w).2.
Proof.
  destruct (new_list_run l w) as (r & -> & Hr). repeat split; simpl.
  by apply insert_subseteq.
Qed.

Lemma new_list_observe (l : list string) (w : World) :
  observe_outcome (new_list l w) = Return (Some (OList l)).
Proof.
  destruct (new_list_run l w) as (r & -> & Hr). simpl.
  by rewrite lookup_insert_eq.
Qed.

Lemma mutate_elsewhere (r r' : loc) (m : Mutation) (w : World) :
  r' ≠ r → heap (mutate r m w).2 !! r' = heap w !! r'.
Proof.
  intros Hne. unfold mutate, mbind, M_bind, bind, read_list.
  destruct (heap w !! r) as [l|]; [|done].
  destruct m; simpl; try case_decide; simpl;
    rewrite ?lookup_insert_ne; done.
Qed.

Lemma mutate_all_elsewhere (r r' : loc) (ms : list Mutation) :
  r' ≠ r → ∀ w, heap (mutate_all r ms w).2 !! r' = heap w !! r'.
Proof.
  intros Hne. induction ms as [|m ms IH]; intros w; [done|].
  simpl. unfold mbind, M_bind, bind.
  pose proof (mutate_elsewhere r r' m w Hne) as Hm.
  destruct (mutate r m w) as [[v|e| |] w']; simpl in *; [|done..].
  by rewrite IH.
Qed.

(** What a caller sees of [get_linker_args_from_envvars] depends on the
    environment only. *)
Lemma envvars_observe (self : Self) (w : World) :
  observe_outcome (LinkerEnvVarsMixin.get_linker_args_from_envvars self w)
  = match environ w !! "LDFLAGS" with
    | None => Return (Some (OList []))
    | Some s =>
        if str_truthy s then
          match shlex.split s with
          | Return l => Return (Some (OList l))
          | Raise e => Raise e
          | Hang => Hang
          | Fault => Fault
          end
        else Return (Some (OList []))
    end.
Proof.
  unfold LinkerEnvVarsMixin.get_linker_args_from_envvars.
  unfold mbind, M_bind, bind, os_environ_get, lift.
  destruct (environ w !! "LDFLAGS") as [s|]; [|apply new_list_observe].
  destruct (str_truthy s); simpl; [|apply new_list_observe].
  destruct (shlex.split s); simpl; [apply new_list_observe|done..].
Qed.

Lemma envvars_preserves (self : Self) (w : World) :
  preserves w (LinkerEnvVarsMixin.get_linker_args_from_envvars self w).2.
Proof.
  unfold LinkerEnvVarsMixin.get_linker_args_from_envvars.
  unfold mbind, M_bind, bind, os_environ_get, lift.
  destruct (environ w !! "LDFLAGS") as [s|]; [|apply new_list_preserves].
  destruct (str_truthy s); simpl; [|apply new_list_preserves].
  destruct (shlex.split s); simpl;
    [apply new_list_preserves|apply preserves_refl..].
Qed.

Lemma exelist_observe (self : Self) (w : World) :
  observe_outcome (get_linker_exelist self w)
  = match heap w !! exelist self with
    | Some l => Return (Some (OList l))
    | None => Fault
    end.
Proof.
  unfold get_linker_exelist, list_copy, mbind, M_bind, bind, read_list.
  destruct (heap w !! exelist self); [apply new_list_observe|done].
Qed.

Lemma exelist_preserves (self : Self) (w : World) :
  preserves w (get_linker_exelist self w).2
  ∧ heap (get_linker_exelist self w).2 !! exelist self
    = heap w !! exelist self.
Proof.
  unfold get_linker_exelist, list_copy, mbind, M_bind, bind, read_list.
  destruct (heap w !! exelist self) as [l|] eqn:Hl;
    [|by split; [apply preserves_refl|]].
  split; [apply new_list_preserves|].
  destruct (new_list_run l w) as (r & -> & Hr). simpl.
  rewrite lookup_insert_ne; [done|congruence].
Qed.

(** ** The capability queries *)

Section queries.
Context {OptionDictType Environment : Type}.
Implicit Types (q : @Query OptionDictType Environment).
Implicit Types (self : Self) (w : World).

Import LinkerEnvVarsMixin.

(** C1 (as the code has it). Every hard-failure query raises on the
    baseline table, whatever its arguments, and leaves the world as it
    was; the message names the unsupported feature.  For link_whole,
    allow-undefined, PIE and coverage the exception is an
    [EnvironmentException] whose message starts with "Linker " followed
    by [self.id]; for bitcode and soname it is a [MesonException] with a
    fixed message that does not mention [self.id]. *)
Theorem hard_failure_raises q self w :
  hard_failure q = true →
  ∃ e, call q self w = (Raise e, w)
       ∧ contains (exn_msg e) (feature_words q)
       ∧ if names_toolchain q
         then (∃ tail, e = EnvironmentException
                             ("Linker " +:+ id self +:+ tail))
              ∧ contains (exn_msg e) (id self)
         else e = MesonException
                    ("This linker doesn't support " +:+ feature_words q).
Proof.
  destruct q; try discriminate; intros _; eexists;
    (split; [reflexivity|]); simpl.
  - split; [|split; [by eexists|]].
    + apply (contains_append_l "Linker "), contains_append_l.
      by exists " does not support ", EmptyString.
    + apply (contains_append_l "Linker "), contains_prefix.
  - split; [|split; [by eexists|]].
    + apply (contains_append_l "Linker "), contains_append_l.
      by exists " does not support ", EmptyString.
    + apply (contains_append_l "Linker "), contains_prefix.
  - split; [|split; [by eexists|]].
    + apply (contains_append_l "Linker "), contains_append_l.
      by exists " does not support ", EmptyString.
    + apply (contains_append_l "Linker "), contains_prefix.
  - split; [|split; [by eexists|]].
    + apply (contains_append_l "Linker "), contains_append_l.
      by exists " doesn't implement ", ".".
    + apply (contains_append_l "Linker "), contains_prefix.
  - split; [|done].
    by exists "This linker doesn't support ", EmptyString.
  - split; [|done].
    by exists "This linker doesn't support ", EmptyString.
Qed.

(** C2. Every inert-default query on the baseline table returns a list
    object (not [None], not an exception) that is new and empty, and
    changes nothing else. *)
Theorem inert_default_returns_empty_list q self w :
  inert_default q = true →
  ∃ r, call q self w
       = (Return (VList r), set_heap (<[r := []]> (heap w)) w)
       ∧ heap w !! r = None
       ∧ observe_outcome (call q self w) = Return (Some (OList [])).
Proof.
  destruct q; try discriminate; intros _;
    (destruct (new_list_run [] w) as (r & Hrun & Hr); exists r;
     split; [exact Hrun|split; [exact Hr|apply new_list_observe]]).
Qed.

(** C3 (as the code has it). When the string in [LDFLAGS] leaves a
    quote open, or ends in a backslash that escapes nothing,
    [get_linker_args_from_envvars] lets the built-in [ValueError] of the
    lexer through, with the lexer's message ("No closing quotation" or
    "No escaped character"): no list is built from a part of the string,
    the world is as it was, and the exception is not one of the classes
    of [mesonlib]. *)
Theorem malformed_flags_raise self w (flags : string) :
  environ w !! "LDFLAGS" = Some flags →
  PosixQuoting.verdict flags ≠ PosixQuoting.WellFormed →
  ∃ e, get_linker_args_from_envvars self w = (Raise e, w)
       ∧ e = ValueError
               match PosixQuoting.verdict flags with
               | PosixQuoting.DanglingEscape => "No escaped character"
               | _ => "No closing quotation"
               end
       ∧ is_capability_error e = false.
Proof.
  intros Henv Hbad. eexists. split; [|split; [reflexivity|done]].
  unfold get_linker_args_from_envvars, mbind, M_bind, bind, os_environ_get.
  rewrite Henv. destruct flags as [|c flags]; [done|]. simpl.
  unfold lift. by rewrite (split_malformed _ Hbad).
Qed.

(** C4. [can_linker_accept_rsp] answers [True] exactly when the host
    platform is Windows, for every [self], and changes nothing. *)
Theorem accepts_rsp_iff_windows self w :
  (∃ b, can_linker_accept_rsp self w = (Return (VBool b), w)
        ∧ (b = true ↔ host_platform w = Windows))
  ∧ ∀ self', can_linker_accept_rsp self' w = can_linker_accept_rsp self w.
Proof.
  split; [|done]. eexists. split; [reflexivity|].
  destruct (host_platform w); split; done.
Qed.

(** C5. [has_multi_link_args] returns the pair [(False, False)] for
    every argument list and every environment, and changes nothing. *)
Theorem multi_link_args_unsupported self (args : loc) (env : Environment) w :
  has_multi_link_args self args env w
  = (Return (VTuple (VBool false) (VBool false)), w).
Proof. reflexivity. Qed.

(** C7 (as the code has it). With [LDFLAGS] unset, empty, or made only
    of spaces, tabs, carriage returns and line feeds, the result is a new
    empty list, and no exception. *)
Theorem blank_flags_empty_list self w :
  (environ w !! "LDFLAGS" = None
   ∨ ∃ s, environ w !! "LDFLAGS" = Some s ∧ separators_only s = true) →
  ∃ r, get_linker_args_from_envvars self w
       = (Return (VList r), set_heap (<[r := []]> (heap w)) w)
       ∧ heap w !! r = None.
Proof.
  intros Henv.
  unfold get_linker_args_from_envvars, mbind, M_bind, bind, os_environ_get.
  destruct Henv as [->|(s & -> & Hs)]; [apply new_list_run|].
  rewrite separators_only_blank in Hs.
  destruct (str_truthy s); simpl; [|apply new_list_run].
  unfold lift. rewrite (split_blank _ Hs). apply new_list_run.
Qed.

(** C8. [get_linker_exelist] returns a list object that holds what the
    list behind [self.exelist] holds and is not that list: it did not
    exist before the call, and whatever the caller then does to it, the
    list behind [self.exelist] holds what it held. *)
Theorem linker_exelist_is_fresh_copy self w (l : list string) :
  heap w !! exelist self = Some l →
  ∃ r w', get_linker_exelist self w = (Return (VList r), w')
          ∧ heap w !! r = None
          ∧ r ≠ exelist self
          ∧ heap w' !! r = Some l
          ∧ ∀ ms, heap (mutate_all r ms w').2 !! exelist self = Some l.
Proof.
  intros Hl.
  unfold get_linker_exelist, list_copy, mbind, M_bind, bind, read_list.
  rewrite Hl. destruct (new_list_run l w) as (r & -> & Hr).
  assert (exelist self ≠ r) as Hne by congruence.
  eexists _, _. split; [reflexivity|]. repeat split; auto; simpl.
  - by rewrite lookup_insert_eq.
  - intros ms. rewrite mutate_all_elsewhere by done. simpl.
    by rewrite lookup_insert_ne.
Qed.

(** C9. A query asked twice, the second time in the world the first
    call left, gives the same result both times: the same exception, or
    values that are equal (lists compared by what they hold).  The first
    call leaves the environment, the platform and every list that
    existed as they were. *)
Theorem queries_idempotent q self w :
  observe_outcome (call q self (call q self w).2)
  = observe_outcome (call q self w)
  ∧ preserves w (call q self w).2.
Proof.
  destruct q; unfold call, call_on; autounfold with queries;
    try (split; [by rewrite !new_list_observe|apply new_list_preserves]);
    try (split; [reflexivity|apply preserves_refl]).
  - split; [|apply envvars_preserves].
    rewrite !envvars_observe.
    by destruct (envvars_preserves self w) as (-> & _).
  - destruct (exelist_preserves self w) as [Hpres Hsame].
    split; [|exact Hpres].
    by rewrite !exelist_observe, Hsame.
Qed.

(** C10. [get_std_shared_module_args] is the call of
    [get_std_shared_lib_link_args] through [self], whatever the options:
    on the baseline table the two queries are the same computation, and
    on a class that overrides [get_std_shared_lib_link_args] alone the
    module query runs the override. *)
Theorem shared_module_args_follow_shared_lib
  (options : OptionDictType) self w :
  call (Environment := Environment)
       (Q_get_std_shared_module_args options) self w
  = call (OptionDictType := OptionDictType) (Environment := Environment)
         Q_get_std_shared_lib_link_args self w
  ∧ get_std_shared_module_args baseline self options
    = get_std_shared_lib_link_args self
  ∧ ∀ f, get_std_shared_module_args
           (override_std_shared_lib_link_args f) self options
         = f self.
Proof. done. Qed.

End queries.

(** ** The queries on sample inputs *)

(** The message of the bitcode failure is the same for every toolchain:
    asked of [dmd], it does not mention [dmd]. *)
Lemma bitcode_error_lacks_toolchain :
  ∃ e, call (OptionDictType := unit) (Environment := unit)
            Q_bitcode_args dmd (linux_world None)
       = (Raise e, linux_world None)
       ∧ ¬ contains (exn_msg e) (id dmd).
Proof.
  eexists. split; [reflexivity|].
  intros H%contains_containsb. vm_compute in H. discriminate.
Qed.

(** [get_link_whole_for] asked of [dmd]. *)
Lemma hard_failure_raises_witness :
  hard_failure (OptionDictType := unit) (Environment := unit)
               (Q_get_link_whole_for 1%positive) = true
  ∧ ∃ e, call (OptionDictType := unit) (Environment := unit)
              (Q_get_link_whole_for 1%positive) dmd (linux_world None)
         = (Raise e, linux_world None)
         ∧ contains (exn_msg e) "link_whole"
         ∧ (∃ tail, e = EnvironmentException ("Linker " +:+ "dmd" +:+ tail))
           ∧ contains (exn_msg e) "dmd".
Proof.
  split; [reflexivity|].
  apply (hard_failure_raises (Q_get_link_whole_for 1%positive) dmd
           (linux_world None)).
  reflexivity.
Defined.

(** [get_lto_link_args] asked of [dmd]. *)
Lemma inert_default_returns_empty_list_witness :
  inert_default (OptionDictType := unit) (Environment := unit)
                Q_get_lto_link_args = true
  ∧ ∃ r, call (OptionDictType := unit) (Environment := unit)
              Q_get_lto_link_args dmd (linux_world None)
         = (Return (VList r),
            set_heap (<[r := []]> (heap (linux_world None)))
                     (linux_world None))
         ∧ heap (linux_world None) !! r = None
         ∧ observe_outcome
             (call (OptionDictType := unit) (Environment := unit)
                   Q_get_lto_link_args dmd (linux_world None))
           = Return (Some (OList [])).
Proof.
  split; [reflexivity|].
  apply (inert_default_returns_empty_list Q_get_lto_link_args dmd
           (linux_world None)).
  reflexivity.
Defined.

(** [LDFLAGS] with a double quote left open. *)
Lemma malformed_flags_raise_witness :
  environ (linux_world (Some ldflags_unclosed)) !! "LDFLAGS"
  = Some ldflags_unclosed
  ∧ PosixQuoting.verdict ldflags_unclosed ≠ PosixQuoting.WellFormed
  ∧ ∃ e, LinkerEnvVarsMixin.get_linker_args_from_envvars
           dmd (linux_world (Some ldflags_unclosed))
         = (Raise e, linux_world (Some ldflags_unclosed))
         ∧ e = ValueError "No closing quotation"
         ∧ is_capability_error e = false.
Proof.
  split; [reflexivity|]. split; [discriminate|].
  apply (malformed_flags_raise dmd (linux_world (Some ldflags_unclosed))
           ldflags_unclosed); [reflexivity|discriminate].
Defined.

(** [LDFLAGS] holding a space and a tab. *)
Lemma blank_flags_empty_list_witness :
  (environ (linux_world (Some ldflags_blank)) !! "LDFLAGS" = None
   ∨ ∃ s, environ (linux_world (Some ldflags_blank)) !! "LDFLAGS" = Some s
          ∧ separators_only s = true)
  ∧ ∃ r, LinkerEnvVarsMixin.get_linker_args_from_envvars
           dmd (linux_world (Some ldflags_blank))
         = (Return (VList r),
            set_heap (<[r := []]> (heap (linux_world (Some ldflags_blank))))
                     (linux_world (Some ldflags_blank)))
         ∧ heap (linux_world (Some ldflags_blank)) !! r = None.
Proof.
  assert (environ (linux_world (Some ldflags_blank)) !! "LDFLAGS" = None
          ∨ ∃ s, environ (linux_world (Some ldflags_blank)) !! "LDFLAGS"
                 = Some s ∧ separators_only s = true) as H.
  { right. exists ldflags_blank. split; reflexivity. }
  split; [exact H|].
  apply (blank_flags_empty_list dmd (linux_world (Some ldflags_blank)) H).
Defined.

(** [dmd], whose invocation list holds the one word [dmd]. *)
Lemma linker_exelist_is_fresh_copy_witness :
  heap (linux_world None) !! exelist dmd = Some ["dmd"]
  ∧ ∃ r w', get_linker_exelist dmd (linux_world None) = (Return (VList r), w')
            ∧ heap (linux_world None) !! r = None
            ∧ r ≠ exelist dmd
            ∧ heap w' !! r = Some ["dmd"]
            ∧ ∀ ms, heap (mutate_all r ms w').2 !! exelist dmd = Some ["dmd"].
Proof.
  split; [reflexivity|].
  apply (linker_exelist_is_fresh_copy dmd (linux_world None) ["dmd"]).
  reflexivity.
Defined.


(** * Further properties of the lexer *)

Section lexer_words.
Import shlex.

Lemma append_push (tok : string) (c : ascii) (s : string) :
  push tok c +:+ s = tok +:+ String c s.
Proof.
  unfold push. induction tok as [|d tok IH]; [done|].
  change (String d ((tok +:+ String c EmptyString) +:+ s)
          = String d (tok +:+ String c s)).
  by rewrite IH.
Qed.

Lemma append_empty_r (s : string) : s +:+ EmptyString = s.
Proof.
  induction s as [|c s IH]; [done|].
  change (String c (s +:+ EmptyString) = String c s).
  by rewrite IH.
Qed.


Lemma length_append (a b : string) :
  String.length (a +:+ b) = String.length a + String.length b.
Proof.
  induction a as [|d a IH]; [done|].
  change (S (String.length (a +:+ b)) = S (String.length a + String.length b)).
  by rewrite IH.
Qed.

(** More calls allowed change nothing once the list is complete. *)
Lemma tokens_fuel_mono (fuel : nat) :
  ∀ lx fuel', fuel ≤ fuel' → tokens fuel lx ≠ Hang →
              tokens fuel' lx = tokens fuel lx.
Proof.
  induction fuel as [|fuel IH]; intros lx fuel' Hle Hr; [done|].
  destruct fuel' as [|fuel']; [lia|]. simpl in *.
  destruct (read_token lx) as [[[tok|] lx']|e| |]; try done.
  rewrite (IH lx' fuel'); [done|lia|].
  intros Hh. rewrite Hh in Hr. done.
Qed.

(** Whitespace met before any token is passed over. *)
Lemma loop_skip_blank (b s : string) (e : ascii) :
  blank b = true →
  loop (b +:+ s) (mkVars (Some ch_space) EmptyString false e)
  = loop s (mkVars (Some ch_space) EmptyString false e).
Proof.
  induction b as [|c b IH]; [done|]. simpl.
  intros [Hc Hb]%andb_true_iff. unfold iteration. simpl in *.
  rewrite Hc. simpl. auto.
Qed.

Lemma plain_char_tests (c : ascii) :
  plain_char c = true →
  in_str c whitespace = false
  ∧ Ascii.eqb c ch_squote = false
  ∧ Ascii.eqb c ch_dquote = false
  ∧ Ascii.eqb c ch_backslash = false.
Proof.
  unfold plain_char. intros H%negb_true_iff.
  apply orb_false_iff in H as [H He]. apply orb_false_iff in H as [Hw Hq].
  simpl in Hq, He.
  apply orb_false_iff in Hq as [Hs Hd]. rewrite orb_false_r in Hd, He.
  done.
Qed.

(** Inside a word, plain characters are added to the token. *)
Lemma loop_word (word : string) :
  ∀ s tok q e,
    plain word = true →
    loop (word +:+ s) (mkVars (Some ch_a) tok q e)
    = loop s (mkVars (Some ch_a) (tok +:+ word) q e).
Proof.
  induction word as [|c word IH]; intros s tok q e Hp.
  - by rewrite append_empty_r.
  - simpl in Hp. apply andb_true_iff in Hp as [Hc Hp].
    destruct (plain_char_tests c Hc) as (Hw & Hs & Hd & Hb).
    change (String c word +:+ s) with (String c (word +:+ s)).
    simpl in Hw. simpl. unfold iteration. simpl.
    rewrite Hw, Hs, Hd, Hb. simpl.
    rewrite IH by done. by rewrite append_push.
Qed.

(** A plain character met in the whitespace state starts a word. *)
Lemma loop_word_start (c : ascii) (s : string) (q : bool) (e : ascii) :
  plain_char c = true →
  loop (String c s) (mkVars (Some ch_space) EmptyString q e)
  = loop s (mkVars (Some ch_a) (String c EmptyString) q e).
Proof.
  intros Hc. destruct (plain_char_tests c Hc) as (Hw & Hs & Hd & Hb).
  simpl in Hw. simpl. unfold iteration. simpl. rewrite Hw, Hs, Hd, Hb. simpl.
  by match goal with |- context [if ?b then _ else _] => destruct b end.
Qed.

(** [read_token] at the start of a word that whitespace ends. *)
Lemma read_token_word (word sep rest : string) :
  str_truthy word = true → plain word = true →
  blank sep = true → str_truthy sep = true →
  ∃ sep', blank sep' = true
          ∧ String.length (sep' +:+ rest) < String.length (word +:+ sep +:+ rest)
          ∧ read_token (mkLexer (word +:+ sep +:+ rest) (Some ch_space)
                                EmptyString)
            = Return (Some word,
                      mkLexer (sep' +:+ rest) (Some ch_space) EmptyString).
Proof.
  intros Hne Hp Hb Hsep.
  destruct word as [|c word]; [done|]. destruct sep as [|d sep]; [done|].
  simpl in Hp, Hb.
  apply andb_true_iff in Hp as [Hc Hp]. apply andb_true_iff in Hb as [Hd Hb].
  exists sep. split; [done|]. split.
  { rewrite ?length_append. simpl. rewrite ?length_append. simpl. lia. }
  unfold read_token.
  change (instream (mkLexer (String c word +:+ String d sep +:+ rest)
                            (Some ch_space) EmptyString))
    with (String c (word +:+ String d (sep +:+ rest))).
  cbn [lex_state lex_token].
  rewrite loop_word_start, loop_word by done.
  simpl in Hd. simpl. unfold iteration. simpl. rewrite Hd. done.
Qed.

(** [read_token] at the start of a word that ends the input. *)
Lemma read_token_last_word (word : string) :
  str_truthy word = true → plain word = true →
  read_token (mkLexer word (Some ch_space) EmptyString)
  = Return (Some word, mkLexer EmptyString None EmptyString).
Proof.
  intros Hne Hp. destruct word as [|c word]; [done|].
  simpl in Hp. apply andb_true_iff in Hp as [Hc Hp].
  unfold read_token. cbn [instream lex_state lex_token].
  rewrite loop_word_start by done.
  rewrite <- (append_empty_r word) at 1. rewrite loop_word by done.
  done.
Qed.

(** [read_token] skips the whitespace it starts in. *)
Lemma read_token_skip_blank (b s : string) :
  blank b = true →
  read_token (mkLexer (b +:+ s) (Some ch_space) EmptyString)
  = read_token (mkLexer s (Some ch_space) EmptyString).
Proof.
  intros Hb. unfold read_token. cbn [instream lex_state lex_token].
  by rewrite loop_skip_blank.
Qed.

(** The list of tokens of words set apart by whitespace, after any
    leading whitespace, is the list of the words. *)
Lemma tokens_words (ws : list (string * string)) :
  ∀ fuel b,
    blank b = true → spaced ws = true →
    String.length (b +:+ unwords ws) + 2 ≤ fuel →
    tokens fuel (mkLexer (b +:+ unwords ws) (Some ch_space) EmptyString)
    = Return ws.*1.
Proof.
  induction ws as [|[word sep] ws IH]; intros fuel b Hb Hs Hfuel.
  - destruct fuel as [|fuel]; [lia|]. simpl.
    rewrite read_token_skip_blank by done. done.
  - destruct fuel as [|fuel]; [lia|].
    simpl in Hs. repeat (apply andb_true_iff in Hs as [Hs ?]).
    cbn [tokens]. rewrite read_token_skip_blank by done.
    rewrite length_append in Hfuel. cbn [unwords] in *.
    destruct (str_truthy sep) eqn:Hsep.
    + destruct (read_token_word word sep (unwords ws))
        as (sep' & Hb' & Hlen & ->); try done.
      rewrite IH; [done..|lia].
    + destruct sep; [|done]. destruct ws; [|done]. simpl.
      rewrite append_empty_r. rewrite read_token_last_word by done.
      destruct fuel as [|fuel]; [simpl in Hfuel; lia|].
      by rewrite tokens_past_end.
Qed.

(** Between quotes, up to the quote that closes them, every character is
    added to the token as it is. *)
Lemma loop_verbatim (qc : ascii) (s : string) :
  qc = ch_squote ∨ qc = ch_dquote →
  ∀ rest tok q e,
    verbatim qc s = true →
    loop (s +:+ String qc rest) (mkVars (Some qc) tok q e)
    = loop rest (mkVars (Some ch_a) (tok +:+ s) true e).
Proof.
  intros Hqc. induction s as [|c s IH]; intros rest tok q e Hv.
  - rewrite append_empty_r. by destruct Hqc as [-> | ->].
  - simpl in Hv. apply andb_true_iff in Hv as [Hv Hs].
    apply andb_true_iff in Hv as [Hc%negb_true_iff Hesc%negb_true_iff].
    change (String c s +:+ String qc rest)
      with (String c (s +:+ String qc rest)).
    destruct Hqc as [-> | ->]; simpl in Hesc; simpl; unfold iteration; simpl;
      rewrite Hc; rewrite ?Hesc; rewrite ?andb_false_r; simpl;
      rewrite IH by auto; by rewrite append_push.
Qed.

Lemma split_quoted (qc : ascii) (s : string) :
  qc = ch_squote ∨ qc = ch_dquote → verbatim qc s = true →
  split (quoted_with qc s) = Return [s].
Proof.
  intros Hqc Hv. unfold split, quoted_with, init.
  cbn [String.length Nat.add tokens]. unfold read_token.
  cbn [instream lex_state lex_token].
  assert (loop (String qc (s +:+ String qc EmptyString))
               (mkVars (Some ch_space) EmptyString false ch_space)
          = loop (s +:+ String qc EmptyString)
                 (mkVars (Some qc) EmptyString false ch_space)) as ->.
  { by destruct Hqc as [-> | ->]. }
  rewrite loop_verbatim by done. done.
Qed.

(** Whitespace before the first token does not change the tokens, nor
    the error. *)
Lemma split_leading_blank (b s : string) :
  blank b = true → split (b +:+ s) = split s.
Proof.
  intros Hb. unfold split.
  assert (∀ fuel, tokens fuel (init (b +:+ s)) = tokens fuel (init s)) as ->.
  { intros [|fuel]; [done|]. unfold init. cbn [tokens].
    by rewrite read_token_skip_blank. }
  apply tokens_fuel_mono.
  - rewrite length_append. lia.
  - pose proof (split_quoting s) as H. unfold split in H.
    intros Hh. rewrite Hh in H. done.
Qed.

Lemma split_words (b : string) (ws : list (string * string)) :
  blank b = true → spaced ws = true →
  split (b +:+ unwords ws) = Return ws.*1.
Proof.
  intros Hb Hs. unfold split, init. apply tokens_words; try done.
  simpl. lia.
Qed.

(** Cancelling a common end. *)
Lemma append_inj_l (a b t : string) : a +:+ t = b +:+ t → a = b.
Proof.
  revert b. induction a as [|c a IH]; intros [|d b] H; [done|..].
  - apply (f_equal String.length) in H.
    change (String.length t = S (String.length (b +:+ t))) in H.
    rewrite length_append in H. lia.
  - apply (f_equal String.length) in H.
    change (S (String.length (a +:+ t)) = String.length t) in H.
    rewrite length_append in H. lia.
  - change (String c (a +:+ t) = String d (b +:+ t)) in H.
    injection H as -> H. by rewrite (IH b H).
Qed.

End lexer_words.

(** * Further properties of the mixins *)

(** When the lexer returns, [get_linker_args_from_envvars] puts its
    tokens in a new list. *)
Lemma envvars_returns (self : Self) (w : World) (s : string)
  (l : list string) :
  environ w !! "LDFLAGS" = Some s → shlex.split s = Return l →
  ∃ r, LinkerEnvVarsMixin.get_linker_args_from_envvars self w
       = (Return (VList r), set_heap (<[r := l]> (heap w)) w)
       ∧ heap w !! r = None.
Proof.
  intros Henv Hs. unfold LinkerEnvVarsMixin.get_linker_args_from_envvars.
  unfold mbind, M_bind, bind, os_environ_get, lift. rewrite Henv.
  destruct s as [|c s].
  - injection Hs as <-. apply new_list_run.
  - simpl. rewrite Hs. apply new_list_run.
Qed.

Lemma envvars_malformed (self : Self) (w : World) (s : string) :
  environ w !! "LDFLAGS" = Some s →
  PosixQuoting.verdict s ≠ PosixQuoting.WellFormed →
  ∃ msg, LinkerEnvVarsMixin.get_linker_args_from_envvars self w
         = (Raise (ValueError msg), w).
Proof.
  intros Henv Hbad. eexists.
  unfold LinkerEnvVarsMixin.get_linker_args_from_envvars.
  unfold mbind, M_bind, bind, os_environ_get, lift. rewrite Henv.
  destruct s as [|c s]; [done|]. simpl.
  by rewrite (split_malformed _ Hbad).
Qed.

(** [get_linker_args_from_envvars] ends with a new list or with the
    lexer's [ValueError]. *)
Lemma envvars_list_or_value_error (self : Self) (w : World) :
  (∃ r l, LinkerEnvVarsMixin.get_linker_args_from_envvars self w
          = (Return (VList r), set_heap (<[r := l]> (heap w)) w)
          ∧ heap w !! r = None)
  ∨ (∃ msg, LinkerEnvVarsMixin.get_linker_args_from_envvars self w
            = (Raise (ValueError msg), w)).
Proof.
  destruct (environ w !! "LDFLAGS") as [s|] eqn:Henv.
  - destruct (split_returns_or_raises s) as [[l Hl]|[msg Hmsg]].
    + left. destruct (envvars_returns self w s l Henv Hl) as (r & ? & ?).
      eauto.
    + right. exists msg.
      unfold LinkerEnvVarsMixin.get_linker_args_from_envvars.
      unfold mbind, M_bind, bind, os_environ_get, lift. rewrite Henv.
      destruct s as [|c s]; [done|]. simpl. by rewrite Hmsg.
  - left. destruct (new_list_run [] w) as (r & Hrun & Hr).
    exists r, []. split; [|done].
    unfold LinkerEnvVarsMixin.get_linker_args_from_envvars.
    unfold mbind, M_bind, bind, os_environ_get. by rewrite Henv.
Qed.

Section more_queries.
Context {OptionDictType Environment : Type}.
Implicit Types (q : @Query OptionDictType Environment).
Implicit Types (self : Self) (w : World).

Import LinkerEnvVarsMixin.

(** X1. [get_linker_args_from_envvars] always comes back: with a new
    list when [LDFLAGS] is unset or its quoting is closed at the end of
    the string, and with [ValueError], the world untouched, when a quote
    or an escape is left open.  It ends in nothing else. *)
Theorem envvars_returns_iff_well_quoted self w :
  (∃ r l, get_linker_args_from_envvars self w
          = (Return (VList r), set_heap (<[r := l]> (heap w)) w)
          ∧ heap w !! r = None
          ∧ ∀ s, environ w !! "LDFLAGS" = Some s →
                 PosixQuoting.verdict s = PosixQuoting.WellFormed)
  ∨ (∃ s msg, environ w !! "LDFLAGS" = Some s
              ∧ PosixQuoting.verdict s ≠ PosixQuoting.WellFormed
              ∧ get_linker_args_from_envvars self w
                = (Raise (ValueError msg), w)).
Proof.
  destruct (environ w !! "LDFLAGS") as [s|] eqn:Henv.
  - assert (PosixQuoting.verdict s = PosixQuoting.WellFormed
            ∨ PosixQuoting.verdict s ≠ PosixQuoting.WellFormed) as [Hok|Hbad]
      by (destruct (PosixQuoting.verdict s); [left|right|right]; done).
    + left. destruct (split_well_formed s Hok) as [l Hl].
      destruct (envvars_returns self w s l Henv Hl) as (r & Hrun & Hr).
      exists r, l. repeat split; auto. by intros ? [= <-].
    + right. destruct (envvars_malformed self w s Henv Hbad) as [msg Hrun].
      eauto.
  - left. destruct (new_list_run [] w) as (r & Hrun & Hr).
    exists r, []. split; [|by split].
    unfold get_linker_args_from_envvars, mbind, M_bind, bind, os_environ_get.
    by rewrite Henv.
Qed.

(** X2. When [LDFLAGS] holds words without quotes or backslashes, set
    apart by whitespace, with any whitespace before the first and after
    the last, the result is a new list of exactly these words, in their
    order. *)
Theorem plain_words_are_the_tokens self w (b : string)
  (ws : list (string * string)) :
  environ w !! "LDFLAGS" = Some (b +:+ unwords ws) →
  blank b = true → spaced ws = true →
  ∃ r, get_linker_args_from_envvars self w
       = (Return (VList r), set_heap (<[r := ws.*1]> (heap w)) w)
       ∧ heap w !! r = None.
Proof.
  intros Henv Hb Hs.
  apply (envvars_returns self w _ _ Henv), split_words; done.
Qed.

(** X3. When [LDFLAGS] is one string between single quotes, or between
    double quotes and free of backslashes, the result is a new list of
    one token, the string as it stands: whitespace and the other kind of
    quote are kept, and the empty string gives one empty token. *)
Theorem quoted_flag_is_verbatim self w (qc : ascii) (s : string) :
  environ w !! "LDFLAGS" = Some (quoted_with qc s) →
  qc = ch_squote ∨ qc = ch_dquote → verbatim qc s = true →
  ∃ r, get_linker_args_from_envvars self w
       = (Return (VList r), set_heap (<[r := [s]]> (heap w)) w)
       ∧ heap w !! r = None.
Proof.
  intros Henv Hqc Hv.
  apply (envvars_returns self w _ _ Henv), split_quoted; done.
Qed.

(** X4. Whitespace at the start of [LDFLAGS] does not show in the
    result: the same tokens come back, or the same error. *)
Theorem leading_whitespace_ignored self w w' (b s : string) :
  environ w !! "LDFLAGS" = Some (b +:+ s) →
  environ w' !! "LDFLAGS" = Some s →
  blank b = true →
  observe_outcome (get_linker_args_from_envvars self w)
  = observe_outcome (get_linker_args_from_envvars self w').
Proof.
  intros Henv Henv' Hb. rewrite !envvars_observe, Henv, Henv'.
  rewrite (split_leading_blank b s Hb).
  destruct s as [|c s].
  - by destruct (str_truthy _).
  - by destruct b.
Qed.

(** X5. The result of [get_linker_args_from_envvars] depends on the
    value of [LDFLAGS] and on nothing else: not on the other variables,
    not on the object, not on the lists in the store. *)
Theorem only_ldflags_matters self self' w w' :
  environ w !! "LDFLAGS" = environ w' !! "LDFLAGS" →
  observe_outcome (get_linker_args_from_envvars self w)
  = observe_outcome (get_linker_args_from_envvars self' w').
Proof. intros Henv. by rewrite !envvars_observe, Henv. Qed.

(** X6. On the baseline table an exception of [mesonlib] is raised by
    the six hard-failure queries and by no other query, in every
    world. *)
Theorem capability_error_iff_hard_failure q self w :
  (∃ e, (call q self w).1 = Raise e ∧ is_capability_error e = true)
  ↔ hard_failure q = true.
Proof.
  split.
  - intros (e & Hrun & He).
    destruct q; try done; exfalso; revert Hrun;
      unfold call, call_on; autounfold with queries.
    all: try (destruct (new_list_run [] w) as (r & -> & _); done).
    + destruct (envvars_list_or_value_error self w)
        as [(r & l & -> & _)|(msg & ->)]; [done|].
      intros [= <-]. done.
    + unfold get_linker_exelist, list_copy, mbind, M_bind, bind, read_list.
      destruct (heap w !! exelist self) as [l|]; [|done].
      destruct (new_list_run l w) as (r & -> & _). done.
  - intros Hq. destruct q; try discriminate Hq;
      eexists; (split; [reflexivity|reflexivity]).
Qed.

(** X7. A list handed back by a query is a new object: no list that
    existed before the call, be it the one behind [self.exelist] or one
    passed as an argument, is returned, and the new one is in the
    store. *)
Theorem returned_list_is_new q self w (r : loc) w' :
  call q self w = (Return (VList r), w') →
  heap w !! r = None ∧ is_Some (heap w' !! r).
Proof.
  assert (∀ l, new_list l w = (Return (VList r), w') →
               heap w !! r = None ∧ is_Some (heap w' !! r)) as Hnew.
  { intros l. destruct (new_list_run l w) as (r0 & -> & Hr0).
    intros [= <- <-]. split; [done|]. simpl. by rewrite lookup_insert_eq. }
  destruct q; unfold call, call_on; autounfold with queries;
    try (by apply Hnew); try done.
  - destruct (envvars_list_or_value_error self w)
      as [(r0 & l & -> & Hr0)|(msg & ->)]; [|done].
    intros [= <- <-]. split; [done|]. simpl. by rewrite lookup_insert_eq.
  - unfold get_linker_exelist, list_copy, mbind, M_bind, bind, read_list.
    destruct (heap w !! exelist self) as [l|]; [by apply Hnew|done].
Qed.

(** X8. The list [get_linker_exelist] returned keeps what it held when
    the list behind [self.exelist] is changed afterwards. *)
Theorem returned_exelist_is_snapshot self w (l : list string) (r : loc) w' :
  heap w !! exelist self = Some l →
  get_linker_exelist self w = (Return (VList r), w') →
  ∀ ms, heap (mutate_all (exelist self) ms w').2 !! r = Some l.
Proof.
  intros Hl Hrun ms. revert Hrun.
  unfold get_linker_exelist, list_copy, mbind, M_bind, bind, read_list.
  rewrite Hl. destruct (new_list_run l w) as (r0 & -> & Hr0).
  intros [= <- <-].
  rewrite mutate_all_elsewhere by congruence. simpl.
  by rewrite lookup_insert_eq.
Qed.

(** X9. For link_whole, allow-undefined, PIE and coverage, two objects
    that get the same exception have the same [id]: the message tells
    the toolchains apart. *)
Theorem toolchain_message_identifies_id q self self' w w' :
  names_toolchain q = true →
  (call q self w).1 = (call q self' w').1 →
  id self = id self'.
Proof.
  destruct q; try discriminate; intros _; simpl; intros [= H];
    by apply append_inj_l in H.
Qed.

(** X10. No answer of the baseline table depends on the arguments of the
    call: two calls of the same method give the same computation. *)
Theorem baseline_ignores_arguments q q' self w :
  same_method q q' = true → call q self w = call q' self w.
Proof.
  destruct q, q'; intros H; first [discriminate H | reflexivity].
Qed.

(** X11. A class that overrides [get_std_shared_lib_link_args] and
    nothing else answers every query but the shared-library and the
    shared-module one as the baseline table does. *)
Theorem override_is_local (f : Self → M Value) q self w :
  uses_std_shared_lib q = false →
  call_on (override_std_shared_lib_link_args f) q self w = call q self w.
Proof. destruct q; intros H; first [discriminate H | reflexivity]. Qed.

End more_queries.

(** ** The further properties on sample inputs *)

(** [LDFLAGS] holding three flags after a leading space. *)
Lemma plain_words_are_the_tokens_witness :
  ∃ r, LinkerEnvVarsMixin.get_linker_args_from_envvars dmd
         (linux_world (Some (String ch_space EmptyString
                             +:+ unwords sample_words)))
       = (Return (VList r),
          set_heap (<[r := ["-L/opt/lib"; "-lm"; "-Wl,--as-needed"]]>
                      (heap (linux_world
                               (Some (String ch_space EmptyString
                                      +:+ unwords sample_words)))))
                   (linux_world (Some (String ch_space EmptyString
                                       +:+ unwords sample_words))))
       ∧ heap (linux_world (Some (String ch_space EmptyString
                                  +:+ unwords sample_words))) !! r = None.
Proof.
  apply (plain_words_are_the_tokens dmd
           (linux_world (Some (String ch_space EmptyString
                               +:+ unwords sample_words)))
           (String ch_space EmptyString) sample_words);
    reflexivity.
Defined.

(** [LDFLAGS] holding a definition with a space in it, between single
    quotes. *)
Lemma quoted_flag_is_verbatim_witness :
  ∃ r, LinkerEnvVarsMixin.get_linker_args_from_envvars dmd
         (linux_world (Some (quoted_with ch_squote "-DMSG=a b")))
       = (Return (VList r),
          set_heap (<[r := ["-DMSG=a b"]]>
                      (heap (linux_world
                               (Some (quoted_with ch_squote "-DMSG=a b")))))
                   (linux_world (Some (quoted_with ch_squote "-DMSG=a b"))))
       ∧ heap (linux_world (Some (quoted_with ch_squote "-DMSG=a b"))) !! r
         = None.
Proof.
  apply (quoted_flag_is_verbatim dmd
           (linux_world (Some (quoted_with ch_squote "-DMSG=a b")))
           ch_squote "-DMSG=a b");
    [reflexivity|left; reflexivity|reflexivity].
Defined.

(** The flags of the spec's example, with and without a space and a tab
    before them. *)
Lemma leading_whitespace_ignored_witness :
  observe_outcome
    (LinkerEnvVarsMixin.get_linker_args_from_envvars dmd
       (linux_world (Some (ldflags_blank +:+ ldflags_example))))
  = observe_outcome
      (LinkerEnvVarsMixin.get_linker_args_from_envvars dmd
         (linux_world (Some ldflags_example))).
Proof.
  apply (leading_whitespace_ignored dmd
           (linux_world (Some (ldflags_blank +:+ ldflags_example)))
           (linux_world (Some ldflags_example))
           ldflags_blank ldflags_example);
    reflexivity.
Defined.

(** The same [LDFLAGS] on a Linux host and, beside [CFLAGS], on a
    Windows host with an empty store. *)
Lemma only_ldflags_matters_witness :
  observe_outcome
    (LinkerEnvVarsMixin.get_linker_args_from_envvars dmd
       (linux_world (Some ldflags_example)))
  = observe_outcome
      (LinkerEnvVarsMixin.get_linker_args_from_envvars
         (mkSelf "ldc" 2%positive)
         (mkWorld (<["CFLAGS" := "-O2"]> {["LDFLAGS" := ldflags_example]})
                  Windows ∅)).
Proof.
  apply (only_ldflags_matters dmd (mkSelf "ldc" 2%positive)
           (linux_world (Some ldflags_example))
           (mkWorld (<["CFLAGS" := "-O2"]> {["LDFLAGS" := ldflags_example]})
                    Windows ∅)).
  reflexivity.
Defined.

(** [get_lto_link_args] asked of [dmd]: the list it returns. *)
Lemma returned_list_is_new_witness :
  heap (linux_world None) !! fresh (dom (heap (linux_world None))) = None
  ∧ is_Some
      (heap (set_heap (<[fresh (dom (heap (linux_world None))) := []]>
                         (heap (linux_world None)))
                      (linux_world None))
       !! fresh (dom (heap (linux_world None)))).
Proof.
  apply (returned_list_is_new (OptionDictType := unit) (Environment := unit)
           Q_get_lto_link_args dmd (linux_world None)).
  reflexivity.
Defined.

(** [dmd] appends a flag to its own invocation list after the call. *)
Lemma returned_exelist_is_snapshot_witness :
  heap (mutate_all (exelist dmd) [Append "-m64"]
          (set_heap (<[fresh (dom (heap (linux_world None))) := ["dmd"]]>
                       (heap (linux_world None)))
                    (linux_world None))).2
  !! fresh (dom (heap (linux_world None)))
  = Some ["dmd"].
Proof.
  apply (returned_exelist_is_snapshot dmd (linux_world None) ["dmd"]
           (fresh (dom (heap (linux_world None))))
           (set_heap (<[fresh (dom (heap (linux_world None))) := ["dmd"]]>
                        (heap (linux_world None)))
                     (linux_world None)));
    reflexivity.
Defined.

(** Two objects that [get_pie_link_args] answers with the same
    exception. *)
Lemma toolchain_message_identifies_id_witness :
  id dmd = id (mkSelf "dmd" 2%positive).
Proof.
  apply (toolchain_message_identifies_id
           (OptionDictType := unit) (Environment := unit)
           Q_get_pie_link_args dmd (mkSelf "dmd" 2%positive)
           (linux_world None) (linux_world (Some ldflags_blank)));
    reflexivity.
Defined.

(** [sanitizer_link_args] asked for two sanitizers. *)
Lemma baseline_ignores_arguments_witness :
  call (OptionDictType := unit) (Environment := unit)
       (Q_sanitizer_link_args "address") dmd (linux_world None)
  = call (OptionDictType := unit) (Environment := unit)
         (Q_sanitizer_link_args "thread") dmd (linux_world None).
Proof.
  apply (baseline_ignores_arguments (Q_sanitizer_link_args "address")
           (Q_sanitizer_link_args "thread") dmd (linux_world None)).
  reflexivity.
Defined.

(** A class whose shared libraries are linked with [-shared], asked for
    its PIE arguments. *)
Lemma override_is_local_witness :
  call_on (OptionDictType := unit) (Environment := unit)
          (override_std_shared_lib_link_args (λ _, new_list ["-shared"]))
          Q_get_pie_link_args dmd (linux_world None)
  = call (OptionDictType := unit) (Environment := unit)
         Q_get_pie_link_args dmd (linux_world None).
Proof.
  apply (override_is_local (λ _, new_list ["-shared"]) Q_get_pie_link_args
           dmd (linux_world None)).
  reflexivity.
Defined.


(** * Words made of pieces *)

Section lexer_pieces.
Import shlex.










End lexer_pieces.

(** * Quoting in the flags of the environment *)



(** With a double quote left open in [LDFLAGS], what comes out of
    [get_linker_args_from_envvars] is the built-in [ValueError], and no
    exception of a class of its own. *)
Lemma malformed_flags_error_is_builtin :
  (LinkerEnvVarsMixin.get_linker_args_from_envvars dmd
     (linux_world (Some ldflags_unclosed))).1
  = Raise (ValueError "No closing quotation")
  ∧ ¬ ∃ e, (LinkerEnvVarsMixin.get_linker_args_from_envvars dmd
              (linux_world (Some ldflags_unclosed))).1 = Raise e
           ∧ is_builtin_error e = false.
Proof.
  assert ((LinkerEnvVarsMixin.get_linker_args_from_envvars dmd
             (linux_world (Some ldflags_unclosed))).1
          = Raise (ValueError "No closing quotation")) as Hrun
    by (vm_compute; reflexivity).
  split; [exact Hrun|].
  intros (e & He & Hb). rewrite Hrun in He. injection He as <-.
  discriminate Hb.
Qed.

(** With a form feed in [LDFLAGS], a string of whitespace only, the
    result is a list of one token, the form feed. *)
Lemma formfeed_flags_give_a_token :
  whitespace_only ldflags_formfeed = true
  ∧ observe_outcome
      (LinkerEnvVarsMixin.get_linker_args_from_envvars dmd
         (linux_world (Some ldflags_formfeed)))
    = Return (Some (OList [ldflags_formfeed])).
Proof.
  split; [reflexivity|].
  rewrite envvars_observe. vm_compute. reflexivity.
Qed.
